(** * BLDC motor performance and loss model: [bldc_model.py]

    A shallow embedding of [ke_from_kv], [kt_from_ke] and [motor_model],
    with the handful of Python and numpy operations they call.

    Number model.  The program computes in IEEE binary64.  Here every
    float is an exact rational ([Q]): rounding, overflow, infinities and
    NaN are not represented, so the theorems describe the formulas the
    code evaluates in exact arithmetic, and values are compared with
    [==] ([Qeq]).  Decimal literals stand for their decimal value.
    Python exceptions are kept: a scalar division by zero and a numpy
    call that raises are values of the error monad [Py.result]. *)

From Stdlib Require Import QArith Qminmax Qpower Lqa ZArith List Lia Bool.
Import ListNotations.
Open Scope Q_scope.

(** ** Python scalars and exceptions *)

Module Py.

Inductive exn : Set :=
| ZeroDivisionError
| ValueError.

Inductive result (A : Type) : Type :=
| Ok (a : A)
| Raise (e : exn).

Arguments Ok {A} a.
Arguments Raise {A} e.

Definition bind {A B : Type} (c : result A) (k : A -> result B) : result B :=
  match c with
  | Ok a => k a
  | Raise e => Raise e
  end.

(** [x / y] on Python floats: raises [ZeroDivisionError] when [y] is zero. *)
Definition truediv (x y : Q) : result Q :=
  if Qeq_bool y 0 then Raise ZeroDivisionError else Ok (x / y).

End Py.

Notation "x <- c ;; k" := (Py.bind c (fun x => k))
  (at level 61, c at next level, right associativity).

(** ** The numpy operations used by the model

    Arrays are lists.  An elementwise operation between an array and a
    scalar is a [map]; between two arrays of the same length it is
    [zip_with].  Elementwise division never raises in numpy: on a zero
    divisor it stores an infinity or a NaN and emits a warning.  [Qdiv]
    is total as well, but its value on a zero divisor (which is [0]) has
    no meaning for the program; no theorem below reads such a value. *)

Module np.

(** [np.pi] is the binary64 number nearest to the circle constant; this
    is its exact value, [0x1.921fb54442d18p+1]. *)
Definition pi : Q := 884279719003555 # 281474976710656.

Fixpoint zip_with (f : Q -> Q -> Q) (a b : list Q) : list Q :=
  match a, b with
  | x :: a', y :: b' => f x y :: zip_with f a' b'
  | _, _ => []
  end.

(** [np.arange(0, num)] as floats: [0.0, 1.0, ..., num - 1]. *)
Definition arange (num : Z) : list Q :=
  map (fun k => inject_Z (Z.of_nat k)) (seq 0 (Z.to_nat num)).

(** [y[-1] = stop]: overwrite the last element. *)
Fixpoint set_last (y : list Q) (stop : Q) : list Q :=
  match y with
  | [] => []
  | [_] => [stop]
  | x :: y' => x :: set_last y' stop
  end.

(** [np.linspace(start, stop, num)] with the default [endpoint=True],
    following numpy's [function_base.linspace] for scalar bounds:
    a negative [num] raises; [y = arange(0, num)] is scaled by
    [step = delta / div] (or, when the step is zero, divided by [div] and
    multiplied by [delta]); with [div <= 0] there is no step and [y] is
    multiplied by [delta]; then [start] is added and, for [num > 1], the
    last element is overwritten with [stop]. *)
Definition linspace (start stop : Q) (num : Z) : Py.result (list Q) :=
  if (num <? 0)%Z then Py.Raise Py.ValueError
  else
    let div := (num - 1)%Z in
    let delta := stop - start in
    let y := arange num in
    let y :=
      if (0 <? div)%Z then
        let step := delta / inject_Z div in
        if Qeq_bool step 0
        then map (fun k => k / inject_Z div * delta) y
        else map (fun k => k * step) y
      else map (fun k => k * delta) y in
    let y := map (fun k => k + start) y in
    Py.Ok (if (1 <? num)%Z then set_last y stop else y).

(** [np.maximum(a, c)] with a scalar [c]. *)
Definition maximum (a : list Q) (c : Q) : list Q :=
  map (fun x => Qmax x c) a.

(** [np.clip(a, a_min, a_max)]; [None] is an absent bound. *)
Definition clip (a : list Q) (a_min a_max : option Q) : list Q :=
  map (fun x =>
         let x := match a_min with Some lo => Qmax x lo | None => x end in
         match a_max with Some hi => Qmin x hi | None => x end) a.

(** [a > c] with a scalar [c]: an array of booleans. *)
Definition greater (a : list Q) (c : Q) : list bool :=
  map (fun x => negb (Qle_bool x c)) a.

(** [np.where(cond, a, c)] with an array [a] and a scalar [c].  Both
    alternatives are complete arrays before the selection. *)
Fixpoint where_ (cond : list bool) (a : list Q) (c : Q) : list Q :=
  match cond, a with
  | b :: cond', x :: a' => (if b then x else c) :: where_ cond' a' c
  | _, _ => []
  end.

(** [np.max(a)]: raises [ValueError] on an array of size zero. *)
Definition max (a : list Q) : Py.result Q :=
  match a with
  | [] => Py.Raise Py.ValueError
  | x :: a' => Py.Ok (fold_left Qmax a' x)
  end.

End np.

(** ** Module constants *)

Definition KV_RPM_PER_V : Q := 920.
Definition R_PHASE : Q := 2 # 10.
Definition V_BUS : Q := 148 # 10.
Definition I_NOLOAD : Q := 8 # 10.
Definition CORE_LOSS_W_AT_BASE : Q := 3.
Definition BASE_SPEED_RPM : Q := KV_RPM_PER_V * V_BUS.
Definition THERMAL_RESISTANCE_C_PER_W : Q := 15 # 100.
Definition AMBIENT_TEMP_C : Q := 27.
Definition N_POINTS : Z := 200.

(** ** Model functions *)

(** [return 1.0 / (kv_rpm_per_v * (2.0 * np.pi / 60.0))] *)
Definition ke_from_kv (kv_rpm_per_v : Q) : Py.result Q :=
  Py.truediv 1 (kv_rpm_per_v * (2 * np.pi / 60)).

(** [return ke] *)
Definition kt_from_ke (ke : Q) : Q := ke.

(** The dictionary [motor_model] returns, one field per key. *)
Record results : Type := mk_results {
  speed_rpm : list Q;
  omega : list Q;
  torque : list Q;
  current : list Q;
  p_in : list Q;
  p_mech : list Q;
  p_cu : list Q;
  p_core : list Q;
  p_loss_total : list Q;
  efficiency : list Q;
  speed_rpm_no_load : Q;
  ke : Q;
  kt : Q;
  p_loss_max : Q;
  delta_t_max : Q;
  t_case_max : Q
}.

Definition motor_model
    (kv_rpm_per_v r_phase v_bus i_noload core_loss_at_base base_speed_rpm : Q)
    (n_points : Z) : Py.result results :=
  ke <- ke_from_kv kv_rpm_per_v ;;
  let kt := kt_from_ke ke in
  omega_no_load <- Py.truediv v_bus ke ;;
  let speed_rpm_no_load := omega_no_load * 60 / (2 * np.pi) in
  speed_rpm <- np.linspace 0 speed_rpm_no_load n_points ;;
  let omega := map (fun s => s * 2 * np.pi / 60) speed_rpm in
  let e_back := map (fun w => ke * w) omega in
  let i_phase := map (fun e => (v_bus - e) / r_phase) e_back in
  let i_phase := np.maximum i_phase 0 in
  let torque := map (fun i => kt * i) i_phase in
  let p_in := map (fun i => v_bus * i) i_phase in
  let p_mech := np.zip_with Qmult torque omega in
  let p_cu := map (fun i => i ^ 2 * r_phase) i_phase in
  let speed_ratio :=
    np.clip (map (fun s => s / base_speed_rpm) speed_rpm) (Some 0) None in
  let p_core := map (fun x => core_loss_at_base * x ^ 2) speed_ratio in
  let p_loss_total := np.zip_with Qplus p_cu p_core in
  let eta :=
    np.where_ (np.greater p_in (1 # 1000000)) (np.zip_with Qdiv p_mech p_in) 0 in
  let eta := np.clip eta (Some 0) (Some 1) in
  p_loss_max <- np.max p_loss_total ;;
  let delta_t_max := p_loss_max * THERMAL_RESISTANCE_C_PER_W in
  let t_case_max := AMBIENT_TEMP_C + delta_t_max in
  Py.Ok {|
    speed_rpm := speed_rpm;
    omega := omega;
    torque := torque;
    current := i_phase;
    p_in := p_in;
    p_mech := p_mech;
    p_cu := p_cu;
    p_core := p_core;
    p_loss_total := p_loss_total;
    efficiency := eta;
    speed_rpm_no_load := speed_rpm_no_load;
    ke := ke;
    kt := kt;
    p_loss_max := p_loss_max;
    delta_t_max := delta_t_max;
    t_case_max := t_case_max
  |}.

(** The local [e_back] of [motor_model] ([e_back = ke * omega]) is not
    part of the returned dictionary; it is recomputed here from the
    returned [ke] and [omega] by the same expression. *)
Definition e_back (res : results) : list Q :=
  map (fun w => ke res * w) (omega res).

(** The constraints of the data model on the seven inputs. *)
Definition valid_input
    (kv_rpm_per_v r_phase v_bus i_noload core_loss_at_base base_speed_rpm : Q)
    (n_points : Z) : Prop :=
  0 < kv_rpm_per_v /\ 0 < r_phase /\ 0 < v_bus /\ 0 <= i_noload /\
  0 <= core_loss_at_base /\ 0 < base_speed_rpm /\ (2 <= n_points)%Z.

(** ** The model, sample by sample

    Every array of [motor_model] is an elementwise function of
    [speed_rpm].  These are the scalar formulas the vectorised lines
    compute at one speed sample [s]; [motor_model_unfold] below proves
    that the arrays returned by [motor_model] are their images. *)

Section Sample.

Variables ke_ kt_ r_phase v_bus core_loss_at_base base_speed_rpm : Q.

Definition omega_at (s : Q) : Q := s * 2 * np.pi / 60.

Definition current_at (s : Q) : Q :=
  Qmax ((v_bus - ke_ * omega_at s) / r_phase) 0.

Definition torque_at (s : Q) : Q := kt_ * current_at s.

Definition p_in_at (s : Q) : Q := v_bus * current_at s.

Definition p_mech_at (s : Q) : Q := torque_at s * omega_at s.

Definition p_cu_at (s : Q) : Q := current_at s ^ 2 * r_phase.

Definition p_core_at (s : Q) : Q :=
  core_loss_at_base * Qmax (s / base_speed_rpm) 0 ^ 2.

Definition p_loss_total_at (s : Q) : Q := p_cu_at s + p_core_at s.

Definition efficiency_at (s : Q) : Q :=
  Qmin
    (Qmax
       (if negb (Qle_bool (p_in_at s) (1 # 1000000))
        then p_mech_at s / p_in_at s else 0) 0) 1.

End Sample.

(** What a successful call has computed. *)
Record unfolded
    (kv_rpm_per_v r_phase v_bus core_loss_at_base base_speed_rpm : Q)
    (n_points : Z) (res : results) : Prop := {
  u_kv : ~ kv_rpm_per_v == 0;
  u_n : (1 <= n_points)%Z;
  u_ke : ke res = 1 / (kv_rpm_per_v * (2 * np.pi / 60));
  u_kt : kt res = ke res;
  u_no_load : speed_rpm_no_load res = v_bus / ke res * 60 / (2 * np.pi);
  u_speed : np.linspace 0 (speed_rpm_no_load res) n_points
            = Py.Ok (speed_rpm res);
  u_omega : omega res = map omega_at (speed_rpm res);
  u_current : current res
              = map (current_at (ke res) r_phase v_bus) (speed_rpm res);
  u_torque : torque res
             = map (torque_at (ke res) (kt res) r_phase v_bus) (speed_rpm res);
  u_p_in : p_in res = map (p_in_at (ke res) r_phase v_bus) (speed_rpm res);
  u_p_mech : p_mech res
             = map (p_mech_at (ke res) (kt res) r_phase v_bus) (speed_rpm res);
  u_p_cu : p_cu res = map (p_cu_at (ke res) r_phase v_bus) (speed_rpm res);
  u_p_core : p_core res
             = map (p_core_at core_loss_at_base base_speed_rpm) (speed_rpm res);
  u_p_loss_total :
    p_loss_total res
    = map (p_loss_total_at (ke res) r_phase v_bus core_loss_at_base
             base_speed_rpm) (speed_rpm res);
  u_efficiency :
    efficiency res
    = map (efficiency_at (ke res) (kt res) r_phase v_bus) (speed_rpm res);
  u_p_loss_max : np.max (p_loss_total res) = Py.Ok (p_loss_max res);
  u_delta_t : delta_t_max res = p_loss_max res * THERMAL_RESISTANCE_C_PER_W;
  u_t_case : t_case_max res = AMBIENT_TEMP_C + delta_t_max res
}.

(** A call runs to completion when it returns its dictionary. *)
Definition runs_to_completion (c : Py.result results) : Prop :=
  exists res, c = Py.Ok res.

(** Decide [valid_input] at a concrete configuration. *)
Ltac valid_by_computation :=
  unfold valid_input; repeat split; solve [reflexivity | discriminate].


(** * Running the model

    The module's configuration with a sweep of five points; the values
    are printed in lowest terms. *)

Example five_point_sweep :
  match motor_model KV_RPM_PER_V R_PHASE V_BUS I_NOLOAD CORE_LOSS_W_AT_BASE
          BASE_SPEED_RPM 5 with
  | Py.Ok res =>
      map Qred (speed_rpm res) = [0; 3404; 6808; 10212; 13616] /\
      map Qred (current res) = [74; 111 # 2; 37; 37 # 2; 0] /\
      map Qred (p_in res) = [5476 # 5; 4107 # 5; 2738 # 5; 1369 # 5; 0] /\
      map Qred (p_mech res) = [0; 4107 # 20; 1369 # 5; 4107 # 20; 0] /\
      map Qred (p_cu res) = [5476 # 5; 12321 # 20; 1369 # 5; 1369 # 20; 0] /\
      map Qred (p_core res) = [0; 3 # 16; 3 # 4; 27 # 16; 3] /\
      map Qred (efficiency res) = [0; 1 # 4; 1 # 2; 3 # 4; 0] /\
      Qred (speed_rpm_no_load res) = 13616 /\
      Qred (p_loss_max res) = 5476 # 5 /\
      Qred (delta_t_max res) = 4107 # 25 /\
      Qred (t_case_max res) = 4782 # 25
  | Py.Raise _ => False
  end.
Proof. vm_compute. repeat split. Qed.

Example one_point_sweep :
  match motor_model KV_RPM_PER_V R_PHASE V_BUS I_NOLOAD CORE_LOSS_W_AT_BASE
          BASE_SPEED_RPM 1 with
  | Py.Ok res =>
      map Qred (speed_rpm res) = [0] /\
      map Qred (current res) = [74] /\
      map Qred (efficiency res) = [0] /\
      Qred (p_loss_max res) = 5476 # 5
  | Py.Raise _ => False
  end.
Proof. vm_compute. repeat split. Qed.

(** * Lists *)

Section ListFacts.

Lemma nth_map_lt (f : Q -> Q) (l : list Q) (i : nat) (d d' : Q) :
  (i < length l)%nat -> nth i (map f l) d = f (nth i l d').
Proof.
  intros Hi. rewrite (nth_indep _ d (f d')) by (rewrite length_map; exact Hi).
  apply map_nth.
Qed.

Lemma zip_with_map (f : Q -> Q -> Q) (g h : Q -> Q) (l : list Q) :
  np.zip_with f (map g l) (map h l) = map (fun x => f (g x) (h x)) l.
Proof.
  induction l as [|x l IH]; simpl; [reflexivity | now rewrite IH].
Qed.

Lemma where_map (t : Q -> Q) (g : Q -> Q) (c eps : Q) (l : list Q) :
  np.where_ (np.greater (map t l) eps) (map g l) c =
  map (fun x => if negb (Qle_bool (t x) eps) then g x else c) l.
Proof.
  unfold np.greater.
  induction l as [|x l IH]; simpl; [reflexivity | now rewrite IH].
Qed.




Lemma set_last_length (y : list Q) (s : Q) :
  length (np.set_last y s) = length y.
Proof.
  induction y as [|x [|x' y] IH]; simpl in *; try reflexivity.
  now rewrite IH.
Qed.

Lemma set_last_nth_before (y : list Q) (s d : Q) (i : nat) :
  (S i < length y)%nat -> nth i (np.set_last y s) d = nth i y d.
Proof.
  revert i. induction y as [|x [|x' y] IH]; intros i Hi; simpl in Hi; try lia.
  destruct i as [|i]; [reflexivity|].
  change (nth i (np.set_last (x' :: y) s) d = nth i (x' :: y) d).
  apply IH. simpl. lia.
Qed.

Lemma set_last_nth_last (y : list Q) (s d : Q) :
  y <> [] -> nth (length y - 1) (np.set_last y s) d = s.
Proof.
  induction y as [|x [|x' y] IH]; intros Hy; [congruence | reflexivity |].
  change (nth (S (length y) - 0) (x :: np.set_last (x' :: y) s) d = s).
  rewrite Nat.sub_0_r. simpl nth.
  replace (length y) with (length (x' :: y) - 1)%nat by (simpl; lia).
  apply IH. discriminate.
Qed.

Lemma arange_length (num : Z) : length (np.arange num) = Z.to_nat num.
Proof. unfold np.arange. now rewrite length_map, length_seq. Qed.

Lemma arange_nth (num : Z) (i : nat) (d : Q) :
  (i < Z.to_nat num)%nat ->
  nth i (np.arange num) d = inject_Z (Z.of_nat i).
Proof.
  intros Hi. unfold np.arange.
  rewrite (nth_indep _ d (inject_Z (Z.of_nat 0)))
    by (now rewrite length_map, length_seq).
  rewrite (map_nth (fun k => inject_Z (Z.of_nat k))).
  now rewrite seq_nth.
Qed.

End ListFacts.

(** * [np.linspace] *)

Section Linspace.

Variables start stop : Q.
Variable num : Z.

Lemma linspace_negative :
  (num < 0)%Z -> np.linspace start stop num = Py.Raise Py.ValueError.
Proof.
  intros H. unfold np.linspace.
  now destruct (Z.ltb_spec num 0); [|lia].
Qed.

Lemma linspace_length (y : list Q) :
  np.linspace start stop num = Py.Ok y -> length y = Z.to_nat num.
Proof.
  unfold np.linspace. destruct (num <? 0)%Z; [discriminate|].
  intros H. injection H as <-.
  destruct (1 <? num)%Z; [rewrite set_last_length|];
    rewrite length_map;
    destruct (0 <? num - 1)%Z; [destruct (Qeq_bool _ 0)| |destruct (Qeq_bool _ 0)|];
    now rewrite length_map, arange_length.
Qed.

Lemma linspace_total :
  (0 <= num)%Z -> exists y, np.linspace start stop num = Py.Ok y.
Proof.
  intros H. unfold np.linspace.
  destruct (Z.ltb_spec num 0); [lia|]. eexists; reflexivity.
Qed.

(** Every sample is on the grid [start + i * (stop - start) / (num - 1)]. *)
Lemma linspace_nth (y : list Q) (i : nat) :
  np.linspace start stop num = Py.Ok y ->
  (2 <= num)%Z -> (i < Z.to_nat num)%nat ->
  nth i y 0 ==
  start + inject_Z (Z.of_nat i) * ((stop - start) / inject_Z (num - 1)).
Proof.
  intros Hy Hn Hi.
  pose proof (linspace_length y Hy) as Hlen.
  assert (Hd : ~ inject_Z (num - 1) == 0).
  { change 0 with (inject_Z 0). rewrite inject_Z_injective. lia. }
  revert Hy Hlen. unfold np.linspace.
  destruct (Z.ltb_spec num 0); [lia|].
  destruct (Z.ltb_spec 1 num); [|lia].
  destruct (Z.ltb_spec 0 (num - 1)); [|lia].
  intros Hy Hlen. injection Hy as <-.
  rewrite set_last_length in Hlen.
  destruct (Nat.eq_dec (S i) (Z.to_nat num)) as [Hlast|Hin].
  - set (y0 := map _ _) in *.
    replace i with (length y0 - 1)%nat by lia.
    rewrite set_last_nth_last
      by (intros E; rewrite E in Hlen; simpl in Hlen; lia).
    replace (Z.of_nat (length y0 - 1)) with (num - 1)%Z by lia.
    field. exact Hd.
  - rewrite set_last_nth_before by lia.
    rewrite (nth_map_lt _ _ _ _ 0) by (rewrite length_map in Hlen; lia).
    destruct (Qeq_bool _ 0) eqn:Hstep;
      rewrite (nth_map_lt _ _ _ _ 0) by (rewrite arange_length; lia);
      rewrite arange_nth by lia; field; exact Hd.
Qed.

(** The last sample is [stop] itself. *)
Lemma linspace_last (y : list Q) :
  np.linspace start stop num = Py.Ok y ->
  (2 <= num)%Z -> nth (Z.to_nat num - 1) y 0 = stop.
Proof.
  intros Hy Hn.
  pose proof (linspace_length y Hy) as Hlen.
  revert Hy Hlen. unfold np.linspace.
  destruct (Z.ltb_spec num 0); [lia|].
  destruct (Z.ltb_spec 1 num); [|lia].
  intros Hy. injection Hy as <-. intros Hlen.
  rewrite <- Hlen, set_last_length.
  apply set_last_nth_last.
  rewrite set_last_length in Hlen.
  intros E. rewrite E in Hlen. simpl in Hlen. lia.
Qed.

End Linspace.


(** * Unfolding [motor_model] *)

Lemma np_pi_pos : 0 < np.pi.
Proof. reflexivity. Qed.

Lemma kv_factor_nonzero (kv : Q) : ~ kv == 0 -> ~ kv * (2 * np.pi / 60) == 0.
Proof.
  intros Hkv H. apply Hkv.
  assert (Hc : ~ 2 * np.pi / 60 == 0) by (intros E; discriminate E).
  apply (Qmult_integral _ _) in H. tauto.
Qed.

Lemma Qinv_nonzero (x : Q) : ~ x == 0 -> ~ 1 / x == 0.
Proof.
  intros Hx H. apply Q_apart_0_1.
  setoid_replace 1 with (1 / x * x) by (field; exact Hx).
  rewrite H. ring.
Qed.

Lemma ke_nonzero (kv : Q) : ~ kv == 0 -> ~ 1 / (kv * (2 * np.pi / 60)) == 0.
Proof. intros Hkv. now apply Qinv_nonzero, kv_factor_nonzero. Qed.

Lemma max_nonempty (a : list Q) : a <> [] -> exists m, np.max a = Py.Ok m.
Proof. destruct a; [congruence | eexists; reflexivity]. Qed.

Section Unfold.

Variables kv r v i0 c b : Q.
Variable n : Z.

Lemma motor_model_unfold (res : results) :
  motor_model kv r v i0 c b n = Py.Ok res -> unfolded kv r v c b n res.
Proof.
  unfold motor_model, ke_from_kv, Py.truediv.
  destruct (Qeq_bool (kv * (2 * np.pi / 60)) 0) eqn:Hkv; [discriminate|].
  cbn [Py.bind].
  destruct (Qeq_bool (1 / (kv * (2 * np.pi / 60))) 0) eqn:Hke; [discriminate|].
  cbn [Py.bind].
  destruct (np.linspace 0 _ n) as [sp|] eqn:Hsp; [|discriminate].
  cbn [Py.bind].
  destruct (np.max _) as [m|] eqn:Hmax; [|discriminate].
  cbn [Py.bind]. intros [= <-].
  unfold np.maximum, np.clip, kt_from_ke in *.
  repeat (progress rewrite ?map_map, ?zip_with_map in Hmax).
  repeat (progress rewrite ?map_map, ?zip_with_map).
  rewrite (where_map _ _ 0 (1 # 1000000)), !map_map.
  assert (Hkv' : ~ kv == 0).
  { intros E. apply Qeq_bool_neq in Hkv. apply Hkv. rewrite E. ring. }
  assert (Hn : (1 <= n)%Z).
  { destruct (Z.le_gt_cases 1 n) as [|Hlt]; [assumption|exfalso].
    assert (sp = []) as ->.
    { destruct (Z.ltb_spec n 0) as [Hneg|Hnn].
      - rewrite linspace_negative in Hsp by exact Hneg. discriminate.
      - apply linspace_length in Hsp. replace n with 0%Z in Hsp by lia.
        now destruct sp. }
    discriminate Hmax. }
  split; cbn [speed_rpm omega torque current p_in p_mech p_cu p_core
                p_loss_total efficiency speed_rpm_no_load ke kt p_loss_max
                delta_t_max t_case_max];
    try reflexivity; assumption.
Qed.

Lemma motor_model_total :
  ~ kv == 0 -> (1 <= n)%Z -> runs_to_completion (motor_model kv r v i0 c b n).
Proof.
  intros Hkv Hn. unfold runs_to_completion, motor_model, ke_from_kv, Py.truediv.
  destruct (Qeq_bool (kv * (2 * np.pi / 60)) 0) eqn:E1;
    [apply Qeq_bool_eq in E1; now apply kv_factor_nonzero in E1|].
  cbn [Py.bind].
  destruct (Qeq_bool (1 / (kv * (2 * np.pi / 60))) 0) eqn:E2;
    [apply Qeq_bool_eq in E2; now apply ke_nonzero in E2|].
  cbn [Py.bind].
  destruct (linspace_total 0 (v / (1 / (kv * (2 * np.pi / 60))) * 60
                              / (2 * np.pi)) n) as [sp Hsp]; [lia|].
  rewrite Hsp. cbn [Py.bind].
  pose proof (linspace_length _ _ _ _ Hsp) as Hlen.
  destruct (max_nonempty
    (np.zip_with Qplus
       (map (fun i => i ^ 2 * r)
          (np.maximum
             (map (fun e => (v - e) / r)
                (map (fun w => 1 / (kv * (2 * np.pi / 60)) * w)
                   (map (fun s => s * 2 * np.pi / 60) sp))) 0))
       (map (fun x => c * x ^ 2)
          (np.clip (map (fun s => s / b) sp) (Some 0) None)))) as [m Hm].
  { unfold np.maximum, np.clip. rewrite !map_map, zip_with_map.
    destruct sp; [simpl in Hlen; lia | discriminate]. }
  unfold kt_from_ke. rewrite Hm. cbn [Py.bind]. eexists; reflexivity.
Qed.

End Unfold.

(** * Constant derivation *)

Lemma Qdiv_pos (a b : Q) : 0 < a -> 0 < b -> 0 < a / b.
Proof.
  intros Ha Hb. apply Qlt_shift_div_l; [exact Hb|]. now rewrite Qmult_0_l.
Qed.

Lemma Qdiv_nonneg (a b : Q) : 0 <= a -> 0 < b -> 0 <= a / b.
Proof.
  intros Ha Hb. apply Qle_shift_div_l; [exact Hb|]. now rewrite Qmult_0_l.
Qed.

Lemma kv_factor_pos (kv : Q) : 0 < kv -> 0 < kv * (2 * np.pi / 60).
Proof.
  intros Hkv. apply Qmult_lt_0_compat; [exact Hkv | reflexivity].
Qed.

Lemma ke_pos (kv : Q) : 0 < kv -> 0 < 1 / (kv * (2 * np.pi / 60)).
Proof.
  intros Hkv. apply Qdiv_pos; [reflexivity | now apply kv_factor_pos].
Qed.

Lemma pos_nonzero (x : Q) : 0 < x -> ~ x == 0.
Proof. intros H E. rewrite E in H. discriminate H. Qed.

(** C2. For every positive speed constant, [ke_from_kv] returns
    [60 / (2 pi kv)], and [kt_from_ke] returns its argument: the torque
    constant is the back-EMF constant. *)
Theorem constants_derivation (kv : Q) :
  0 < kv ->
  exists k : Q,
    ke_from_kv kv = Py.Ok k /\
    k == 60 / (2 * np.pi * kv) /\
    kt_from_ke k = k.
Proof.
  intros Hkv. exists (1 / (kv * (2 * np.pi / 60))).
  pose proof (pos_nonzero _ (kv_factor_pos kv Hkv)) as Hnz.
  repeat split.
  - unfold ke_from_kv, Py.truediv.
    destruct (Qeq_bool _ 0) eqn:E; [|reflexivity].
    apply Qeq_bool_eq in E. contradiction.
  - pose proof np_pi_pos as Hpi. apply pos_nonzero in Hpi.
    pose proof (pos_nonzero _ Hkv) as Hk.
    generalize dependent np.pi. intros p _ Hp. field. tauto.
Qed.

Lemma constants_derivation_witness :
  0 < KV_RPM_PER_V /\
  exists k : Q,
    ke_from_kv KV_RPM_PER_V = Py.Ok k /\
    k == 60 / (2 * np.pi * KV_RPM_PER_V) /\
    kt_from_ke k = k.
Proof.
  split; [reflexivity|].
  apply (constants_derivation KV_RPM_PER_V). reflexivity.
Defined.

(** * The speed sweep of a successful call *)

Lemma no_load_algebra (p kv v : Q) :
  ~ p == 0 -> ~ kv == 0 ->
  v / (1 / (kv * (2 * p / 60))) * 60 / (2 * p) == kv * v.
Proof. intros Hp Hk. field. tauto. Qed.


Section Sweep.

Variables kv r v i0 c b : Q.
Variable n : Z.
Variable res : results.
Hypothesis Hres : motor_model kv r v i0 c b n = Py.Ok res.
Hypothesis Hkv : 0 < kv.
Hypothesis Hv : 0 < v.

Lemma sweep_unfolded : unfolded kv r v c b n res.
Proof. exact (motor_model_unfold kv r v i0 c b n res Hres). Qed.

Lemma ke_res_pos : 0 < ke res.
Proof. rewrite (u_ke _ _ _ _ _ _ _ sweep_unfolded). now apply ke_pos. Qed.

Lemma no_load_eq : speed_rpm_no_load res == kv * v.
Proof.
  rewrite (u_no_load _ _ _ _ _ _ _ sweep_unfolded), (u_ke _ _ _ _ _ _ _ sweep_unfolded).
  apply no_load_algebra; apply pos_nonzero; [exact np_pi_pos | exact Hkv].
Qed.

Lemma no_load_pos : 0 < speed_rpm_no_load res.
Proof. rewrite no_load_eq. now apply Qmult_lt_0_compat. Qed.

Lemma sweep_length : length (speed_rpm res) = Z.to_nat n.
Proof. exact (linspace_length _ _ _ _ (u_speed _ _ _ _ _ _ _ sweep_unfolded)). Qed.


Hypothesis Hn : (2 <= n)%Z.

Lemma step_pos : 0 < speed_rpm_no_load res / inject_Z (n - 1).
Proof.
  apply Qdiv_pos; [exact no_load_pos|].
  change 0 with (inject_Z 0). rewrite <- Zlt_Qlt. lia.
Qed.

Lemma sweep_nth (i : nat) :
  (i < Z.to_nat n)%nat ->
  nth i (speed_rpm res) 0 ==
  inject_Z (Z.of_nat i) * (speed_rpm_no_load res / inject_Z (n - 1)).
Proof.
  intros Hi.
  rewrite (linspace_nth _ _ _ _ i (u_speed _ _ _ _ _ _ _ sweep_unfolded) Hn Hi).
  unfold Qminus. rewrite Qplus_0_l.
  setoid_replace (- 0) with 0 by reflexivity. now rewrite Qplus_0_r.
Qed.

Lemma sweep_last : nth (Z.to_nat n - 1) (speed_rpm res) 0 = speed_rpm_no_load res.
Proof. exact (linspace_last _ _ _ _ (u_speed _ _ _ _ _ _ _ sweep_unfolded) Hn). Qed.

Lemma sweep_monotone (i j : nat) :
  (i <= j < Z.to_nat n)%nat ->
  nth i (speed_rpm res) 0 <= nth j (speed_rpm res) 0.
Proof.
  intros [Hij Hj].
  rewrite (sweep_nth i), (sweep_nth j) by lia.
  apply Qmult_le_compat_r; [|apply Qlt_le_weak, step_pos].
  rewrite <- Zle_Qle. lia.
Qed.

Lemma sweep_first : nth 0 (speed_rpm res) 0 == 0.
Proof. rewrite (sweep_nth 0) by lia. apply Qmult_0_l. Qed.

Lemma sweep_bounds (i : nat) :
  (i < Z.to_nat n)%nat ->
  0 <= nth i (speed_rpm res) 0 <= speed_rpm_no_load res.
Proof.
  intros Hi. split.
  - apply Qle_trans with (nth 0 (speed_rpm res) 0).
    + rewrite sweep_first. apply Qle_refl.
    + apply sweep_monotone. lia.
  - rewrite <- sweep_last. apply sweep_monotone. lia.
Qed.

End Sweep.

(** C1. With at least two samples and positive speed constant,
    resistance and bus voltage, the call returns a sweep of exactly
    [n_points] samples, evenly spaced on the closed interval from 0 to
    the no-load speed: sample [i] is [i] steps of
    [no_load / (n_points - 1)] and lies in the interval, the sequence
    is non-decreasing, its first element is 0 and its last element is the
    no-load speed, which is [v_bus / ke] converted to rpm by
    [* 60 / (2 pi)]. *)
Theorem speed_sweep_linear (kv r v i0 c b : Q) (n : Z) :
  (2 <= n)%Z -> 0 < kv -> 0 < r -> 0 < v ->
  exists res : results,
    motor_model kv r v i0 c b n = Py.Ok res /\
    length (speed_rpm res) = Z.to_nat n /\
    (forall i : nat, (i < Z.to_nat n)%nat ->
       nth i (speed_rpm res) 0 ==
       inject_Z (Z.of_nat i) * (speed_rpm_no_load res / inject_Z (n - 1)) /\
       0 <= nth i (speed_rpm res) 0 <= speed_rpm_no_load res) /\
    (forall i j : nat, (i <= j < Z.to_nat n)%nat ->
       nth i (speed_rpm res) 0 <= nth j (speed_rpm res) 0) /\
    nth 0 (speed_rpm res) 0 == 0 /\
    nth (Z.to_nat n - 1) (speed_rpm res) 0 = speed_rpm_no_load res /\
    speed_rpm_no_load res = v / ke res * 60 / (2 * np.pi).
Proof.
  intros Hn Hkv Hr Hv.
  destruct (motor_model_total kv r v i0 c b n) as [res Hres];
    [now apply pos_nonzero | lia |].
  exists res. split; [exact Hres|].
  split; [now apply (sweep_length kv r v i0 c b n)|].
  split.
  { intros i Hi. split.
    - now apply (sweep_nth kv r v i0 c b n).
    - now apply (sweep_bounds kv r v i0 c b n). }
  split; [intros i j; now apply (sweep_monotone kv r v i0 c b n)|].
  split; [now apply (sweep_first kv r v i0 c b n)|].
  split; [now apply (sweep_last kv r v i0 c b n)|].
  exact (u_no_load _ _ _ _ _ _ _ (motor_model_unfold _ _ _ _ _ _ _ _ Hres)).
Qed.

Lemma speed_sweep_linear_witness :
  ((2 <= N_POINTS)%Z /\ 0 < KV_RPM_PER_V /\ 0 < R_PHASE /\ 0 < V_BUS) /\
  exists res : results,
    motor_model KV_RPM_PER_V R_PHASE V_BUS I_NOLOAD CORE_LOSS_W_AT_BASE
      BASE_SPEED_RPM N_POINTS = Py.Ok res /\
    length (speed_rpm res) = 200%nat /\
    nth 0 (speed_rpm res) 0 == 0 /\
    nth 199 (speed_rpm res) 0 = speed_rpm_no_load res.
Proof.
  split; [repeat split; solve [reflexivity | discriminate]|].
  destruct (speed_sweep_linear KV_RPM_PER_V R_PHASE V_BUS I_NOLOAD CORE_LOSS_W_AT_BASE
      BASE_SPEED_RPM N_POINTS)
    as (res & Hres & Hlen & _ & _ & Hfirst & Hlast & _);
    [discriminate | reflexivity | reflexivity | reflexivity |].
  exists res. repeat split; assumption.
Defined.

(** * One sample of a successful call *)

Section SampleView.

Variables kv r v c b : Q.
Variable n : Z.
Variable res : results.
Hypothesis U : unfolded kv r v c b n res.
Variable i : nat.
Hypothesis Hi : (i < length (speed_rpm res))%nat.

Lemma omega_nth : nth i (omega res) 0 = omega_at (nth i (speed_rpm res) 0).
Proof. rewrite (u_omega _ _ _ _ _ _ _ U). now apply nth_map_lt. Qed.

Lemma current_nth : nth i (current res) 0 = current_at (ke res) r v (nth i (speed_rpm res) 0).
Proof. rewrite (u_current _ _ _ _ _ _ _ U). now apply nth_map_lt. Qed.

Lemma torque_nth :
  nth i (torque res) 0 = kt res * nth i (current res) 0.
Proof.
  rewrite current_nth, (u_torque _ _ _ _ _ _ _ U).
  now apply (nth_map_lt (torque_at (ke res) (kt res) r v)).
Qed.

Lemma p_in_nth : nth i (p_in res) 0 = v * nth i (current res) 0.
Proof.
  rewrite current_nth, (u_p_in _ _ _ _ _ _ _ U).
  now apply (nth_map_lt (p_in_at (ke res) r v)).
Qed.

Lemma p_mech_nth :
  nth i (p_mech res) 0 = nth i (torque res) 0 * nth i (omega res) 0.
Proof.
  rewrite torque_nth, current_nth, omega_nth, (u_p_mech _ _ _ _ _ _ _ U).
  now apply (nth_map_lt (p_mech_at (ke res) (kt res) r v)).
Qed.

Lemma p_cu_nth : nth i (p_cu res) 0 = nth i (current res) 0 ^ 2 * r.
Proof.
  rewrite current_nth, (u_p_cu _ _ _ _ _ _ _ U).
  now apply (nth_map_lt (p_cu_at (ke res) r v)).
Qed.

Lemma p_core_nth : nth i (p_core res) 0 = c * Qmax (nth i (speed_rpm res) 0 / b) 0 ^ 2.
Proof.
  rewrite (u_p_core _ _ _ _ _ _ _ U).
  now apply (nth_map_lt (p_core_at c b)).
Qed.

Lemma p_loss_total_nth :
  nth i (p_loss_total res) 0 = nth i (p_cu res) 0 + nth i (p_core res) 0.
Proof.
  rewrite p_cu_nth, current_nth, p_core_nth, (u_p_loss_total _ _ _ _ _ _ _ U).
  now apply (nth_map_lt (p_loss_total_at (ke res) r v c b)).
Qed.

Lemma efficiency_nth :
  nth i (efficiency res) 0 =
  Qmin
    (Qmax
       (if negb (Qle_bool (nth i (p_in res) 0) (1 # 1000000))
        then nth i (p_mech res) 0 / nth i (p_in res) 0 else 0) 0) 1.
Proof.
  rewrite p_mech_nth, torque_nth, p_in_nth, current_nth, omega_nth.
  rewrite (u_efficiency _ _ _ _ _ _ _ U).
  now apply (nth_map_lt (efficiency_at (ke res) (kt res) r v)).
Qed.

Lemma e_back_nth : nth i (e_back res) 0 = ke res * nth i (omega res) 0.
Proof.
  unfold e_back. apply nth_map_lt.
  now rewrite (u_omega _ _ _ _ _ _ _ U), length_map.
Qed.

Lemma current_formula :
  nth i (current res) 0 = Qmax ((v - nth i (e_back res) 0) / r) 0.
Proof. rewrite e_back_nth, omega_nth. apply current_nth. Qed.

End SampleView.

(** * The stall sample *)

(** C3. For every valid input the call returns, and at the first sample
    of the sweep the speed, [omega] and the back-EMF are 0, the current
    is the stall current [v_bus / r_phase], the torque is [kt] times that
    current, and the mechanical power and the efficiency are 0. *)
Theorem stall_sample (kv r v i0 c b : Q) (n : Z) :
  valid_input kv r v i0 c b n ->
  exists res : results,
    motor_model kv r v i0 c b n = Py.Ok res /\
    nth 0 (speed_rpm res) 0 == 0 /\
    nth 0 (omega res) 0 == 0 /\
    nth 0 (e_back res) 0 == 0 /\
    nth 0 (current res) 0 == v / r /\
    nth 0 (torque res) 0 == kt res * (v / r) /\
    nth 0 (p_mech res) 0 == 0 /\
    nth 0 (efficiency res) 0 == 0.
Proof.
  intros (Hkv & Hr & Hv & _ & _ & _ & Hn).
  destruct (motor_model_total kv r v i0 c b n) as [res Hres];
    [now apply pos_nonzero | lia |].
  exists res. split; [exact Hres|].
  pose proof (motor_model_unfold _ _ _ _ _ _ _ _ Hres) as U.
  assert (H0 : (0 < length (speed_rpm res))%nat).
  { rewrite (sweep_length kv r v i0 c b n res Hres). lia. }
  pose proof (sweep_first kv r v i0 c b n res Hres Hn) as Hs.
  assert (Ho : nth 0 (omega res) 0 == 0).
  { rewrite (omega_nth _ _ _ _ _ _ _ U 0 H0). unfold omega_at.
    rewrite Hs. reflexivity. }
  assert (He : nth 0 (e_back res) 0 == 0).
  { rewrite (e_back_nth _ _ _ _ _ _ _ U 0 H0), Ho. apply Qmult_0_r. }
  assert (Hc : nth 0 (current res) 0 == v / r).
  { rewrite (current_formula _ _ _ _ _ _ _ U 0 H0), He.
    setoid_replace (v - 0) with v by ring.
    apply Q.max_l, Qdiv_nonneg; [now apply Qlt_le_weak | exact Hr]. }
  assert (Ht : nth 0 (torque res) 0 == kt res * (v / r)).
  { rewrite (torque_nth _ _ _ _ _ _ _ U 0 H0), Hc. reflexivity. }
  assert (Hm : nth 0 (p_mech res) 0 == 0).
  { rewrite (p_mech_nth _ _ _ _ _ _ _ U 0 H0), Ho. apply Qmult_0_r. }
  repeat split; try assumption.
  rewrite (efficiency_nth _ _ _ _ _ _ _ U 0 H0).
  destruct (negb _).
  - rewrite Hm. unfold Qdiv. rewrite Qmult_0_l. reflexivity.
  - reflexivity.
Qed.

Lemma stall_sample_witness :
  valid_input KV_RPM_PER_V R_PHASE V_BUS I_NOLOAD CORE_LOSS_W_AT_BASE
    BASE_SPEED_RPM N_POINTS /\
  exists res : results,
    motor_model KV_RPM_PER_V R_PHASE V_BUS I_NOLOAD CORE_LOSS_W_AT_BASE
      BASE_SPEED_RPM N_POINTS = Py.Ok res /\
    nth 0 (current res) 0 == 74 /\
    nth 0 (efficiency res) 0 == 0.
Proof.
  split; [valid_by_computation|].
  destruct (stall_sample KV_RPM_PER_V R_PHASE V_BUS I_NOLOAD CORE_LOSS_W_AT_BASE
      BASE_SPEED_RPM N_POINTS)
    as (res & Hres & _ & _ & _ & Hc & _ & _ & He); [valid_by_computation|].
  exists res. split; [exact Hres|]. split; [|exact He].
  rewrite Hc. reflexivity.
Defined.

(** * The no-load sample *)


(** * Efficiency *)

Lemma valid_runs (kv r v i0 c b : Q) (n : Z) :
  valid_input kv r v i0 c b n ->
  exists res : results,
    motor_model kv r v i0 c b n = Py.Ok res /\
    unfolded kv r v c b n res /\
    length (speed_rpm res) = Z.to_nat n.
Proof.
  intros (Hkv & _ & _ & _ & _ & _ & Hn).
  destruct (motor_model_total kv r v i0 c b n) as [res Hres];
    [now apply pos_nonzero | lia |].
  exists res. split; [exact Hres|]. split.
  - now apply motor_model_unfold with (i0 := i0).
  - now apply (sweep_length kv r v i0 c b n).
Qed.




(** * Signs *)

(** C5. For every valid input, current, torque, copper loss, core loss
    and total loss are non-negative at every sample. *)
Theorem losses_nonnegative (kv r v i0 c b : Q) (n : Z) :
  valid_input kv r v i0 c b n ->
  exists res : results,
    motor_model kv r v i0 c b n = Py.Ok res /\
    forall i : nat, (i < Z.to_nat n)%nat ->
      0 <= nth i (current res) 0 /\
      0 <= nth i (torque res) 0 /\
      0 <= nth i (p_cu res) 0 /\
      0 <= nth i (p_core res) 0 /\
      0 <= nth i (p_loss_total res) 0.
Proof.
  intros Hvalid. destruct (valid_runs _ _ _ _ _ _ _ Hvalid) as (res & Hres & U & Hlen).
  destruct Hvalid as (Hkv & Hr & Hv & _ & Hc & Hb & Hn).
  exists res. split; [exact Hres|].
  intros i Hi. rewrite <- Hlen in Hi.
  pose proof (ke_res_pos _ _ _ _ _ _ _ _ Hres Hkv) as Hke.
  assert (Hcur : 0 <= nth i (current res) 0).
  { rewrite (current_nth _ _ _ _ _ _ _ U i Hi). apply Q.le_max_r. }
  assert (Htor : 0 <= nth i (torque res) 0).
  { rewrite (torque_nth _ _ _ _ _ _ _ U i Hi), (u_kt _ _ _ _ _ _ _ U).
    apply Qmult_le_0_compat; [now apply Qlt_le_weak | exact Hcur]. }
  assert (Hcu : 0 <= nth i (p_cu res) 0).
  { rewrite (p_cu_nth _ _ _ _ _ _ _ U i Hi). nra. }
  assert (Hco : 0 <= nth i (p_core res) 0).
  { rewrite (p_core_nth _ _ _ _ _ _ _ U i Hi).
    generalize (Qmax (nth i (speed_rpm res) 0 / b) 0). intros x. nra. }
  repeat split; try assumption.
  rewrite (p_loss_total_nth _ _ _ _ _ _ _ U i Hi). lra.
Qed.

Lemma losses_nonnegative_witness :
  valid_input KV_RPM_PER_V R_PHASE V_BUS I_NOLOAD CORE_LOSS_W_AT_BASE
    BASE_SPEED_RPM N_POINTS /\
  exists res : results,
    motor_model KV_RPM_PER_V R_PHASE V_BUS I_NOLOAD CORE_LOSS_W_AT_BASE
      BASE_SPEED_RPM N_POINTS = Py.Ok res /\
    0 <= nth 7 (p_loss_total res) 0.
Proof.
  split; [valid_by_computation|].
  destruct (losses_nonnegative KV_RPM_PER_V R_PHASE V_BUS I_NOLOAD CORE_LOSS_W_AT_BASE
      BASE_SPEED_RPM N_POINTS)
    as (res & Hres & H); [valid_by_computation|].
  exists res. split; [exact Hres|]. apply (H 7%nat). simpl. lia.
Defined.

(** * Energy balance *)




(** * Thermal summary *)

Lemma fold_max_spec (a : list Q) (x : Q) :
  In (fold_left Qmax a x) (x :: a) /\
  forall y : Q, In y (x :: a) -> y <= fold_left Qmax a x.
Proof.
  revert x. induction a as [|z a IH]; intros x; simpl.
  - split; [now left|]. intros y [<-|[]]. apply Qle_refl.
  - destruct (IH (Qmax x z)) as [Hin Hle]. split.
    + destruct Hin as [E|Hin]; [|now right; right].
      rewrite <- E. unfold Qmax, GenericMinMax.gmax.
      destruct (x ?= z); auto.
    + intros y [E|[E|Hy]].
      * subst y. apply Qle_trans with (Qmax x z); [apply Q.le_max_l|].
        apply Hle. now left.
      * subst y. apply Qle_trans with (Qmax x z); [apply Q.le_max_r|].
        apply Hle. now left.
      * apply Hle. now right.
Qed.

Lemma np_max_spec (a : list Q) (m : Q) :
  np.max a = Py.Ok m -> In m a /\ forall y : Q, In y a -> y <= m.
Proof.
  destruct a as [|x a]; [discriminate|].
  intros [= <-]. apply fold_max_spec.
Qed.

(** C6. For every valid input, [p_loss_max] is the maximum of
    [p_loss_total] over all samples, the stall sample included: it is one
    of the samples and no sample exceeds it; [delta_t_max] is
    [p_loss_max] times the thermal resistance, and [t_case_max] is the
    ambient temperature plus [delta_t_max]. *)
Theorem thermal_summary (kv r v i0 c b : Q) (n : Z) :
  valid_input kv r v i0 c b n ->
  exists res : results,
    motor_model kv r v i0 c b n = Py.Ok res /\
    length (p_loss_total res) = Z.to_nat n /\
    In (p_loss_max res) (p_loss_total res) /\
    (forall i : nat, (i < Z.to_nat n)%nat ->
       nth i (p_loss_total res) 0 <= p_loss_max res) /\
    nth 0 (p_loss_total res) 0 <= p_loss_max res /\
    delta_t_max res = p_loss_max res * THERMAL_RESISTANCE_C_PER_W /\
    t_case_max res = AMBIENT_TEMP_C + delta_t_max res.
Proof.
  intros Hvalid. destruct (valid_runs _ _ _ _ _ _ _ Hvalid) as (res & Hres & U & Hlen).
  destruct Hvalid as (_ & _ & _ & _ & _ & _ & Hn).
  exists res. split; [exact Hres|].
  assert (Hl : length (p_loss_total res) = Z.to_nat n).
  { now rewrite (u_p_loss_total _ _ _ _ _ _ _ U), length_map. }
  destruct (np_max_spec _ _ (u_p_loss_max _ _ _ _ _ _ _ U)) as [Hin Hmax].
  assert (Hall : forall i : nat, (i < Z.to_nat n)%nat ->
                 nth i (p_loss_total res) 0 <= p_loss_max res).
  { intros i Hi. apply Hmax, nth_In. now rewrite Hl. }
  repeat split; try assumption.
  - apply Hall. lia.
  - exact (u_delta_t _ _ _ _ _ _ _ U).
  - exact (u_t_case _ _ _ _ _ _ _ U).
Qed.

Lemma thermal_summary_witness :
  valid_input KV_RPM_PER_V R_PHASE V_BUS I_NOLOAD CORE_LOSS_W_AT_BASE
    BASE_SPEED_RPM N_POINTS /\
  exists res : results,
    motor_model KV_RPM_PER_V R_PHASE V_BUS I_NOLOAD CORE_LOSS_W_AT_BASE
      BASE_SPEED_RPM N_POINTS = Py.Ok res /\
    In (p_loss_max res) (p_loss_total res) /\
    t_case_max res = 27 + p_loss_max res * (15 # 100).
Proof.
  split; [valid_by_computation|].
  destruct (thermal_summary KV_RPM_PER_V R_PHASE V_BUS I_NOLOAD CORE_LOSS_W_AT_BASE
      BASE_SPEED_RPM N_POINTS)
    as (res & Hres & _ & Hin & _ & _ & Hd & Ht); [valid_by_computation|].
  exists res. split; [exact Hres|]. split; [exact Hin|].
  rewrite Ht, Hd. reflexivity.
Defined.

(** * Core-loss scaling *)



(** * The unused parameter *)

(** C8. [i_noload] is inert: two calls that differ only in it return the
    same result, every array and every scalar (or raise the same
    exception). *)
Theorem no_load_current_inert (kv r v i1 i2 c b : Q) (n : Z) :
  motor_model kv r v i1 c b n = motor_model kv r v i2 c b n.
Proof. reflexivity. Qed.

(** * Invalid configurations *)



(** An empty sweep does not run to completion either: [np.max] raises
    on the empty [p_loss_total]; and a negative count raises in
    [np.linspace]. *)
Lemma zero_samples_raises :
  motor_model KV_RPM_PER_V R_PHASE V_BUS I_NOLOAD CORE_LOSS_W_AT_BASE
    BASE_SPEED_RPM 0 = Py.Raise Py.ValueError /\
  np.linspace 0 (KV_RPM_PER_V * V_BUS) (-1) = Py.Raise Py.ValueError.
Proof. split; reflexivity. Qed.

Section Outcome.

Variables kv r v i0 c b : Q.
Variable n : Z.

Lemma zero_kv_raises :
  kv == 0 -> motor_model kv r v i0 c b n = Py.Raise Py.ZeroDivisionError.
Proof.
  intros Hkv. unfold motor_model, ke_from_kv, Py.truediv.
  destruct (Qeq_bool (kv * (2 * np.pi / 60)) 0) eqn:E; [reflexivity|].
  apply Qeq_bool_neq in E. exfalso. apply E. rewrite Hkv. apply Qmult_0_l.
Qed.

Lemma no_samples_raises :
  ~ kv == 0 -> (n <= 0)%Z ->
  motor_model kv r v i0 c b n = Py.Raise Py.ValueError.
Proof.
  intros Hkv Hn. unfold motor_model, ke_from_kv, Py.truediv.
  destruct (Qeq_bool (kv * (2 * np.pi / 60)) 0) eqn:E1;
    [apply Qeq_bool_eq in E1; now apply kv_factor_nonzero in E1|].
  cbn [Py.bind].
  destruct (Qeq_bool (1 / (kv * (2 * np.pi / 60))) 0) eqn:E2;
    [apply Qeq_bool_eq in E2; now apply ke_nonzero in E2|].
  cbn [Py.bind].
  destruct (Z.ltb_spec n 0) as [Hneg|Hnn].
  - now rewrite linspace_negative.
  - replace n with 0%Z by lia. reflexivity.
Qed.


End Outcome.



(** * Closed forms on a valid sweep

    On a valid input neither clamp is active: the back-EMF stays at or
    below the bus voltage and the speeds are non-negative.  The curves
    are then polynomials in the speed. *)

Section ValidSample.

Variables kv r v i0 c b : Q.
Variable n : Z.
Variable res : results.
Hypothesis Hvalid : valid_input kv r v i0 c b n.
Hypothesis Hres : motor_model kv r v i0 c b n = Py.Ok res.
Variable i : nat.
Hypothesis Hi : (i < Z.to_nat n)%nat.






End ValidSample.

(** * Further properties of the model *)




























(** X9. [core_loss_at_base] and [base_speed_rpm] reach only the core
    loss, the total loss and the thermal summary.  Two calls that differ
    in nothing else raise the same exception or return the same sweep,
    [omega], torque, current, input power, mechanical power, copper
    loss, efficiency, no-load speed, [ke] and [kt]. *)
Theorem loss_inputs_confined (kv r v i0 c b c' b' : Q) (n : Z) :
  match motor_model kv r v i0 c b n, motor_model kv r v i0 c' b' n with
  | Py.Ok res, Py.Ok res' =>
      speed_rpm res = speed_rpm res' /\
      omega res = omega res' /\
      torque res = torque res' /\
      current res = current res' /\
      p_in res = p_in res' /\
      p_mech res = p_mech res' /\
      p_cu res = p_cu res' /\
      efficiency res = efficiency res' /\
      speed_rpm_no_load res = speed_rpm_no_load res' /\
      ke res = ke res' /\
      kt res = kt res'
  | Py.Raise e, Py.Raise e' => e = e'
  | _, _ => False
  end.
Proof.
  destruct (Qeq_dec kv 0) as [Hkv|Hkv].
  { now rewrite !zero_kv_raises. }
  destruct (Z.le_gt_cases n 0) as [Hn|Hn].
  { now rewrite !no_samples_raises. }
  destruct (motor_model_total kv r v i0 c b n Hkv) as [res Hres]; [lia|].
  destruct (motor_model_total kv r v i0 c' b' n Hkv) as [res' Hres']; [lia|].
  rewrite Hres, Hres'.
  pose proof (motor_model_unfold _ _ _ _ _ _ _ _ Hres) as U.
  pose proof (motor_model_unfold _ _ _ _ _ _ _ _ Hres') as U'.
  assert (Hke : ke res = ke res').
  { now rewrite (u_ke _ _ _ _ _ _ _ U), (u_ke _ _ _ _ _ _ _ U'). }
  assert (Hkt : kt res = kt res').
  { now rewrite (u_kt _ _ _ _ _ _ _ U), (u_kt _ _ _ _ _ _ _ U'). }
  assert (Hnl : speed_rpm_no_load res = speed_rpm_no_load res').
  { now rewrite (u_no_load _ _ _ _ _ _ _ U), (u_no_load _ _ _ _ _ _ _ U'), Hke. }
  assert (Hsp : speed_rpm res = speed_rpm res').
  { pose proof (u_speed _ _ _ _ _ _ _ U) as H1.
    pose proof (u_speed _ _ _ _ _ _ _ U') as H2.
    rewrite Hnl, H2 in H1. now injection H1. }
  rewrite (u_omega _ _ _ _ _ _ _ U), (u_omega _ _ _ _ _ _ _ U'),
    (u_torque _ _ _ _ _ _ _ U), (u_torque _ _ _ _ _ _ _ U'),
    (u_current _ _ _ _ _ _ _ U), (u_current _ _ _ _ _ _ _ U'),
    (u_p_in _ _ _ _ _ _ _ U), (u_p_in _ _ _ _ _ _ _ U'),
    (u_p_mech _ _ _ _ _ _ _ U), (u_p_mech _ _ _ _ _ _ _ U'),
    (u_p_cu _ _ _ _ _ _ _ U), (u_p_cu _ _ _ _ _ _ _ U'),
    (u_efficiency _ _ _ _ _ _ _ U), (u_efficiency _ _ _ _ _ _ _ U').
  rewrite Hke, Hkt, Hsp. repeat split; reflexivity || assumption.
Qed.










(** * Equal speeds give equal values *)

Section SampleCompat.

Variables K T r v c b : Q.
Variables s s' : Q.
Hypothesis Hs : s == s'.

Lemma omega_at_compat : omega_at s == omega_at s'.
Proof. unfold omega_at. now rewrite Hs. Qed.

Lemma current_at_compat : current_at K r v s == current_at K r v s'.
Proof. unfold current_at. now rewrite omega_at_compat. Qed.

Lemma torque_at_compat : torque_at K T r v s == torque_at K T r v s'.
Proof. unfold torque_at. now rewrite current_at_compat. Qed.

Lemma p_in_at_compat : p_in_at K r v s == p_in_at K r v s'.
Proof. unfold p_in_at. now rewrite current_at_compat. Qed.

Lemma p_mech_at_compat : p_mech_at K T r v s == p_mech_at K T r v s'.
Proof. unfold p_mech_at. now rewrite torque_at_compat, omega_at_compat. Qed.

Lemma p_cu_at_compat : p_cu_at K r v s == p_cu_at K r v s'.
Proof. unfold p_cu_at. now rewrite current_at_compat. Qed.

Lemma p_core_at_compat : p_core_at c b s == p_core_at c b s'.
Proof. unfold p_core_at. now rewrite Hs. Qed.

Lemma p_loss_total_at_compat :
  p_loss_total_at K r v c b s == p_loss_total_at K r v c b s'.
Proof.
  unfold p_loss_total_at. now rewrite p_cu_at_compat, p_core_at_compat.
Qed.

Lemma efficiency_at_compat :
  efficiency_at K T r v s == efficiency_at K T r v s'.
Proof.
  unfold efficiency_at.
  rewrite (Qleb_comp _ _ p_in_at_compat _ _ (Qeq_refl (1 # 1000000))).
  destruct (negb _); [|reflexivity].
  now rewrite p_mech_at_compat, p_in_at_compat.
Qed.

End SampleCompat.

Lemma refined_grid_algebra (i : nat) (n : Z) (nl : Q) :
  (2 <= n)%Z ->
  inject_Z (Z.of_nat i) * (nl / inject_Z (n - 1)) ==
  inject_Z (Z.of_nat (2 * i)) * (nl / inject_Z (2 * n - 1 - 1)).
Proof.
  intros Hn.
  replace (Z.of_nat (2 * i)) with (2 * Z.of_nat i)%Z by lia.
  replace (2 * n - 1 - 1)%Z with (2 * (n - 1))%Z by lia.
  rewrite !inject_Z_mult. field.
  change 0 with (inject_Z 0). rewrite inject_Z_injective. lia.
Qed.

(** X13. The values at a sample depend on the speed of the sample only,
    not on the sample count: in two valid calls that differ only in
    [n_points], samples of equal speed have equal current, torque, input
    power, mechanical power, copper loss, core loss, total loss and
    efficiency.  In particular the sweep of [2 n - 1] points holds every
    speed of the sweep of [n] points, at the even indices. *)
Theorem resampling_invariance (kv r v i0 c b : Q) (n n' : Z) :
  valid_input kv r v i0 c b n -> valid_input kv r v i0 c b n' ->
  exists res res' : results,
    motor_model kv r v i0 c b n = Py.Ok res /\
    motor_model kv r v i0 c b n' = Py.Ok res' /\
    (forall i j : nat, (i < Z.to_nat n)%nat -> (j < Z.to_nat n')%nat ->
       nth i (speed_rpm res) 0 == nth j (speed_rpm res') 0 ->
       nth i (current res) 0 == nth j (current res') 0 /\
       nth i (torque res) 0 == nth j (torque res') 0 /\
       nth i (p_in res) 0 == nth j (p_in res') 0 /\
       nth i (p_mech res) 0 == nth j (p_mech res') 0 /\
       nth i (p_cu res) 0 == nth j (p_cu res') 0 /\
       nth i (p_core res) 0 == nth j (p_core res') 0 /\
       nth i (p_loss_total res) 0 == nth j (p_loss_total res') 0 /\
       nth i (efficiency res) 0 == nth j (efficiency res') 0) /\
    (n' = (2 * n - 1)%Z ->
     forall i : nat, (i < Z.to_nat n)%nat ->
       nth i (speed_rpm res) 0 == nth (2 * i) (speed_rpm res') 0).
Proof.
  intros Hvalid Hvalid'.
  destruct (valid_runs _ _ _ _ _ _ _ Hvalid) as (res & Hres & U & Hlen).
  destruct (valid_runs _ _ _ _ _ _ _ Hvalid') as (res' & Hres' & U' & Hlen').
  pose proof Hvalid as (_ & _ & _ & _ & _ & _ & Hn).
  exists res, res'. split; [exact Hres|]. split; [exact Hres'|].
  assert (Hke : ke res' = ke res).
  { now rewrite (u_ke _ _ _ _ _ _ _ U), (u_ke _ _ _ _ _ _ _ U'). }
  assert (Hkt : kt res' = kt res).
  { now rewrite (u_kt _ _ _ _ _ _ _ U), (u_kt _ _ _ _ _ _ _ U'). }
  assert (Hnl : speed_rpm_no_load res' = speed_rpm_no_load res).
  { now rewrite (u_no_load _ _ _ _ _ _ _ U), (u_no_load _ _ _ _ _ _ _ U'), Hke. }
  split.
  - intros i j Hi Hj Hs. rewrite <- Hlen in Hi. rewrite <- Hlen' in Hj.
    rewrite (u_current _ _ _ _ _ _ _ U), (u_current _ _ _ _ _ _ _ U'),
      (u_torque _ _ _ _ _ _ _ U), (u_torque _ _ _ _ _ _ _ U'),
      (u_p_in _ _ _ _ _ _ _ U), (u_p_in _ _ _ _ _ _ _ U'),
      (u_p_mech _ _ _ _ _ _ _ U), (u_p_mech _ _ _ _ _ _ _ U'),
      (u_p_cu _ _ _ _ _ _ _ U), (u_p_cu _ _ _ _ _ _ _ U'),
      (u_p_core _ _ _ _ _ _ _ U), (u_p_core _ _ _ _ _ _ _ U'),
      (u_p_loss_total _ _ _ _ _ _ _ U), (u_p_loss_total _ _ _ _ _ _ _ U'),
      (u_efficiency _ _ _ _ _ _ _ U), (u_efficiency _ _ _ _ _ _ _ U').
    rewrite Hke, Hkt.
    rewrite !(nth_map_lt _ (speed_rpm res) i 0 0) by exact Hi.
    rewrite !(nth_map_lt _ (speed_rpm res') j 0 0) by exact Hj.
    repeat split.
    + now apply current_at_compat.
    + now apply torque_at_compat.
    + now apply p_in_at_compat.
    + now apply p_mech_at_compat.
    + now apply p_cu_at_compat.
    + now apply p_core_at_compat.
    + now apply p_loss_total_at_compat.
    + now apply efficiency_at_compat.
  - intros -> i Hi.
    rewrite (sweep_nth kv r v i0 c b n res Hres Hn i Hi).
    rewrite (sweep_nth kv r v i0 c b (2 * n - 1) res' Hres') by lia.
    rewrite Hnl. now apply refined_grid_algebra.
Qed.

Lemma resampling_invariance_witness :
  (valid_input KV_RPM_PER_V R_PHASE V_BUS I_NOLOAD CORE_LOSS_W_AT_BASE
     BASE_SPEED_RPM 3 /\
   valid_input KV_RPM_PER_V R_PHASE V_BUS I_NOLOAD CORE_LOSS_W_AT_BASE
     BASE_SPEED_RPM 5) /\
  exists res res' : results,
    motor_model KV_RPM_PER_V R_PHASE V_BUS I_NOLOAD CORE_LOSS_W_AT_BASE
      BASE_SPEED_RPM 3 = Py.Ok res /\
    motor_model KV_RPM_PER_V R_PHASE V_BUS I_NOLOAD CORE_LOSS_W_AT_BASE
      BASE_SPEED_RPM 5 = Py.Ok res' /\
    nth 1 (speed_rpm res) 0 == nth 2 (speed_rpm res') 0 /\
    nth 1 (p_loss_total res) 0 == nth 2 (p_loss_total res') 0.
Proof.
  split; [split; valid_by_computation|].
  destruct (resampling_invariance KV_RPM_PER_V R_PHASE V_BUS I_NOLOAD
              CORE_LOSS_W_AT_BASE BASE_SPEED_RPM 3 5)
    as (res & res' & Hres & Hres' & Hsame & Hgrid);
    [valid_by_computation | valid_by_computation |].
  assert (Hs : nth 1 (speed_rpm res) 0 == nth 2 (speed_rpm res') 0).
  { apply (Hgrid eq_refl 1%nat). simpl. lia. }
  exists res, res'. split; [exact Hres|]. split; [exact Hres'|].
  split; [exact Hs|].
  destruct (Hsame 1%nat 2%nat) as (_ & _ & _ & _ & _ & _ & Hl & _);
    [simpl; lia | simpl; lia | exact Hs | exact Hl].
Defined.

(** * The point of largest mechanical power *)






(** * Scaling the bus voltage *)



